(** * Interchain-accounts keeper (modules/apps/27-interchain-accounts/keeper)

  A shallow embedding of [keeper.go]: the port registry, the active-channel
  tracker, the address registry and the application-version negotiator,
  over an ordered key-value store modelled as a finite map from byte
  strings to byte strings.  Go's [string] and [[]byte] are both sequences
  of bytes and are both rendered as [string]. *)

From Stdlib Require Import String Ascii.
From stdpp Require Import gmap strings list fin_maps sorting.

(** ** Package [strings] *)

Module strings.

(** [strings.Split(s, sep)] for a separator of one byte, which is the only
    way the keeper calls it: the pieces of [s] between the occurrences of
    [sep]; a string without [sep] (the empty one too) is returned whole,
    as the only piece. *)
Fixpoint Split (s : string) (sep : ascii) : list string :=
  match s with
  | EmptyString => [EmptyString]
  | String c s' =>
      if decide (c = sep) then EmptyString :: Split s' sep
      else match Split s' sep with
           | [] => [String c EmptyString]
           | piece :: pieces => String c piece :: pieces
           end
  end.

End strings.

(** ** Package [host] (24-host) *)

Module host.

(** Modelled from the spec: [host.PortPath] is not part of the sources at
    hand; the capability of port [p] is claimed under ["ports/" + p]. *)
Definition PortPath (portID : string) : string := "ports/" +:+ portID.

End host.

(** ** Package [channeltypes] (04-channel/types) *)

Module channeltypes.

Inductive Order : Type := NONE | UNORDERED | ORDERED.

Record Counterparty : Type := mkCounterparty {
  PortId : string;
  ChannelId : string
}.

End channeltypes.

(** ** Package [types] of the module: store keys and collaborator interfaces *)

Module types.

(** Modelled from the spec: the key constants and key builders live in the
    [types] package, which is not part of the sources at hand.  The store
    layout is [port/<portID>], [active_channel/<portID>] and
    [owner_account/<portID>]; a key is its prefix, a slash and the port
    identifier. *)
Definition PortKeyPrefix : string := "port".
Definition ActiveChannelKeyPrefix : string := "active_channel".
Definition OwnerKeyPrefix : string := "owner_account".

Definition KeyPort (portID : string) : string :=
  PortKeyPrefix +:+ "/" +:+ portID.
Definition KeyActiveChannel (portID : string) : string :=
  ActiveChannelKeyPrefix +:+ "/" +:+ portID.
Definition KeyOwnerAccount (portID : string) : string :=
  OwnerKeyPrefix +:+ "/" +:+ portID.

(** [sdk.AccAddress] is a byte slice; [None] is the nil slice. *)
Definition AccAddress : Type := option string.

(** The collaborators act on the part of the chain state that is not this
    module's store ([World]): they hold no handle on the keeper's store
    key. *)
Record AccountKeeper : Type := mkAccountKeeper {
  GetModuleAddress : string → AccAddress
}.

Record PortKeeper (World Capability : Type) : Type := mkPortKeeper {
  BindPort : string → World → Capability * World
}.

Record ScopedKeeper (World Capability error : Type) : Type := mkScopedKeeper {
  GetCapability : string → World → option Capability;
  AuthenticateCapability : Capability → string → World → bool;
  ClaimCapability : Capability → string → World → option error * World
}.

(** The constants and pure helpers of the package that the keeper only
    passes around; they are not part of the sources at hand and are taken as
    parameters.  [AccAddress_String] is the [String] method of an address. *)
Class Package (RegisteredError : Type) : Type := mkPackage {
  ErrInvalidVersion : RegisteredError;
  VersionPrefix : string;
  ModuleName : string;
  GenerateAddress : AccAddress → string → AccAddress;
  AccAddress_String : AccAddress → string;
  NewAppVersion : string → string → string
}.

Arguments BindPort {World Capability}.
Arguments GetCapability {World Capability error}.
Arguments AuthenticateCapability {World Capability error}.
Arguments ClaimCapability {World Capability error}.

End types.

(** ** Package [sdkerrors] *)

Module sdkerrors.

(** A registered error wrapped with a description. *)
Inductive error (RegisteredError : Type) : Type :=
  | wrappedError (parent : RegisteredError) (msg : string).
Arguments wrappedError {RegisteredError}.

(** [Wrapf(err, format, args...)], with the format already applied. *)
Definition Wrapf {RegisteredError : Type}
    (err : RegisteredError) (description : string) : error RegisteredError :=
  wrappedError err description.

Definition parent_of {RegisteredError : Type} (e : error RegisteredError) :=
  match e with wrappedError p _ => p end.
Definition message_of {RegisteredError : Type} (e : error RegisteredError) :=
  match e with wrappedError _ m => m end.

End sdkerrors.

(** ** The store and the context *)

Module sdk.

(** [sdk.KVStorePrefixIterator(store, prefix)]: the records whose key
    starts with [prefix], by ascending key in the byte order of the store
    ([String.le], that is [bytes.Compare]). *)
Definition KVStorePrefixIterator
    (store : gmap string string) (prefix : string) : list (string * string) :=
  (λ key, (key, default EmptyString (store !! key))) <$>
    merge_sort String.le
      (filter (λ key, String.prefix prefix key = true) (map_to_list store).*1).

Record Context (World : Type) : Type := mkContext {
  KVStore : gmap string string;
  world : World
}.
Arguments mkContext {World}.
Arguments KVStore {World}.
Arguments world {World}.

End sdk.

(** ** The keeper *)

Section keeper.

Context {World Capability RegisteredError : Type}.
Context `{!types.Package RegisteredError}.

Abbreviation Context := (sdk.Context World).
Abbreviation error := (sdkerrors.error RegisteredError).

Record Keeper : Type := mkKeeper {
  portKeeper : types.PortKeeper World Capability;
  accountKeeper : types.AccountKeeper;
  scopedKeeper : types.ScopedKeeper World Capability error
}.

(** Every method takes the context and may write to it: a state monad
    over [Context]. *)
Definition M (A : Type) : Type := Context → A * Context.

Definition ret {A : Type} (a : A) : M A := λ ctx, (a, ctx).

Definition bind {A B : Type} (m : M A) (f : A → M B) : M B :=
  λ ctx, let (a, ctx') := m ctx in f a ctx'.

#[local] Instance M_ret : MRet M := @ret.
#[local] Instance M_bind : MBind M := λ A B f m, bind m f.

(** The [sdk.KVStore] methods the keeper uses. *)
Definition store_Has (key : string) : M bool :=
  λ ctx, (bool_decide (is_Some (sdk.KVStore ctx !! key)), ctx).

Definition store_Get (key : string) : M string :=
  λ ctx, (default EmptyString (sdk.KVStore ctx !! key), ctx).

Definition store_Set (key value : string) : M unit :=
  λ ctx, (tt, sdk.mkContext (<[key := value]> (sdk.KVStore ctx)) (sdk.world ctx)).

Definition store_Delete (key : string) : M unit :=
  λ ctx, (tt, sdk.mkContext (delete key (sdk.KVStore ctx)) (sdk.world ctx)).

Definition store_PrefixIterator (prefix : string) : M (list (string * string)) :=
  λ ctx, (sdk.KVStorePrefixIterator (sdk.KVStore ctx) prefix, ctx).

(** A call into a collaborator that may change the world. *)
Definition call {A : Type} (f : World → A * World) : M A :=
  λ ctx, let (a, w) := f (sdk.world ctx) in (a, sdk.mkContext (sdk.KVStore ctx) w).

Definition query {A : Type} (f : World → A) : M A :=
  λ ctx, (f (sdk.world ctx), ctx).

(** [NewKeeper]: [None] is the panic on a module account that is not set. *)
Definition NewKeeper
    (portKeeper : types.PortKeeper World Capability)
    (accountKeeper : types.AccountKeeper)
    (scopedKeeper : types.ScopedKeeper World Capability error) : option Keeper :=
  match types.GetModuleAddress accountKeeper types.ModuleName with
  | None => None
  | Some _ => Some (mkKeeper portKeeper accountKeeper scopedKeeper)
  end.

(** The loop of [GetAllPorts] over the iterator; [None] is the run-time
    panic of [keySplit[1]] on a key with no slash. *)
Fixpoint GetAllPorts_loop
    (iterator : list (string * string)) (ports : list string) : option (list string) :=
  match iterator with
  | [] => Some ports
  | (key, _) :: iterator' =>
      let keySplit := strings.Split key "/" in
      match keySplit !! 1%nat with
      | None => None
      | Some port => GetAllPorts_loop iterator' (ports ++ [port])
      end
  end.

Definition GetAllPorts (k : Keeper) : M (option (list string)) :=
  iterator ← store_PrefixIterator types.PortKeyPrefix;
  ret (GetAllPorts_loop iterator []).

Definition BindPort (k : Keeper) (portID : string) : M Capability :=
  store_Set (types.KeyPort portID) (String "001" EmptyString);;
  call (types.BindPort (portKeeper k) portID).

Definition IsBound (k : Keeper) (portID : string) : M bool :=
  cap ← query (types.GetCapability (scopedKeeper k) (host.PortPath portID));
  ret (bool_decide (is_Some cap)).

Definition AuthenticateCapability (k : Keeper) (cap : Capability) (name : string) : M bool :=
  query (types.AuthenticateCapability (scopedKeeper k) cap name).

Definition ClaimCapability (k : Keeper) (cap : Capability) (name : string) : M (option error) :=
  call (types.ClaimCapability (scopedKeeper k) cap name).

Definition GetActiveChannelID (k : Keeper) (portID : string) : M (string * bool) :=
  let key := types.KeyActiveChannel portID in
  has ← store_Has key;
  if negb has then ret (EmptyString, false)
  else value ← store_Get key; ret (value, true).

Definition SetActiveChannelID (k : Keeper) (portID channelID : string) : M unit :=
  store_Set (types.KeyActiveChannel portID) channelID.

Definition DeleteActiveChannelID (k : Keeper) (portID : string) : M unit :=
  store_Delete (types.KeyActiveChannel portID).

Definition IsActiveChannel (k : Keeper) (portID : string) : M bool :=
  r ← GetActiveChannelID k portID;
  ret r.2.

Definition GetInterchainAccountAddress (k : Keeper) (portID : string) : M (string * bool) :=
  let key := types.KeyOwnerAccount portID in
  has ← store_Has key;
  if negb has then ret (EmptyString, false)
  else value ← store_Get key; ret (value, true).

Definition SetInterchainAccountAddress (k : Keeper) (portID address : string) : M unit :=
  store_Set (types.KeyOwnerAccount portID) address.

Definition NegotiateAppVersion (k : Keeper)
    (order : channeltypes.Order) (connectionID portID : string)
    (counterparty : channeltypes.Counterparty)
    (proposedVersion : string) : M (string * option error) :=
  if negb (bool_decide (proposedVersion = types.VersionPrefix)) then
    ret (EmptyString,
         Some (sdkerrors.Wrapf types.ErrInvalidVersion
                 ("failed to negotiate app version: expected " +:+ types.VersionPrefix
                  +:+ ", got " +:+ proposedVersion)))
  else
    let moduleAccAddr := types.GetModuleAddress (accountKeeper k) types.ModuleName in
    let accAddr := types.GenerateAddress moduleAccAddr (channeltypes.PortId counterparty) in
    ret (types.NewAppVersion types.VersionPrefix (types.AccAddress_String accAddr), None).

(** A call of one of the keeper's methods, and runs of calls: what a caller
    of the keeper can do to the context. *)
Inductive Call : Type :=
  | CallGetAllPorts
  | CallBindPort (portID : string)
  | CallIsBound (portID : string)
  | CallAuthenticateCapability (cap : Capability) (name : string)
  | CallClaimCapability (cap : Capability) (name : string)
  | CallGetActiveChannelID (portID : string)
  | CallSetActiveChannelID (portID channelID : string)
  | CallDeleteActiveChannelID (portID : string)
  | CallIsActiveChannel (portID : string)
  | CallGetInterchainAccountAddress (portID : string)
  | CallSetInterchainAccountAddress (portID address : string)
  | CallNegotiateAppVersion (order : channeltypes.Order)
      (connectionID portID : string) (counterparty : channeltypes.Counterparty)
      (proposedVersion : string).

Definition exec (k : Keeper) (c : Call) : M unit :=
  match c with
  | CallGetAllPorts => GetAllPorts k;; ret tt
  | CallBindPort portID => BindPort k portID;; ret tt
  | CallIsBound portID => IsBound k portID;; ret tt
  | CallAuthenticateCapability cap name => AuthenticateCapability k cap name;; ret tt
  | CallClaimCapability cap name => ClaimCapability k cap name;; ret tt
  | CallGetActiveChannelID portID => GetActiveChannelID k portID;; ret tt
  | CallSetActiveChannelID portID channelID => SetActiveChannelID k portID channelID
  | CallDeleteActiveChannelID portID => DeleteActiveChannelID k portID
  | CallIsActiveChannel portID => IsActiveChannel k portID;; ret tt
  | CallGetInterchainAccountAddress portID => GetInterchainAccountAddress k portID;; ret tt
  | CallSetInterchainAccountAddress portID address =>
      SetInterchainAccountAddress k portID address
  | CallNegotiateAppVersion order connectionID portID counterparty proposedVersion =>
      NegotiateAppVersion k order connectionID portID counterparty proposedVersion;;
      ret tt
  end.

Fixpoint run (k : Keeper) (calls : list Call) : M unit :=
  match calls with
  | [] => ret tt
  | c :: calls' => exec k c;; run k calls'
  end.

End keeper.

Arguments Keeper : clear implicits.
Arguments M : clear implicits.
Arguments Call : clear implicits.

(** ** Vocabulary of the statements *)

(** The part of a string before its first slash (all of it when it has
    none), the part after it, and the piece between the first two slashes. *)
Fixpoint before_slash (s : string) : string :=
  match s with
  | EmptyString => EmptyString
  | String c s' => if decide (c = "/"%char) then EmptyString else String c (before_slash s')
  end.

Fixpoint after_slash (s : string) : string :=
  match s with
  | EmptyString => EmptyString
  | String c s' => if decide (c = "/"%char) then s' else after_slash s'
  end.

Definition between_slashes (key : string) : string := before_slash (after_slash key).

Fixpoint has_slash (s : string) : bool :=
  match s with
  | EmptyString => false
  | String c s' => if decide (c = "/"%char) then true else has_slash s'
  end.

(** A string occurs in another one. *)
Definition occurs_in (piece whole : string) : Prop :=
  ∃ before after, whole = before +:+ piece +:+ after.

(** The records of a store that are kept under one key. *)
Definition records_at (key : string) (store : gmap string string) : list (string * string) :=
  filter (λ kv, kv.1 = key) (map_to_list store).

(** The key a call writes to (or deletes), and what the call does to the
    store. *)
Definition written_key {Capability : Type} (c : Call Capability) : option string :=
  match c with
  | CallBindPort portID => Some (types.KeyPort portID)
  | CallSetActiveChannelID portID _ => Some (types.KeyActiveChannel portID)
  | CallDeleteActiveChannelID portID => Some (types.KeyActiveChannel portID)
  | CallSetInterchainAccountAddress portID _ => Some (types.KeyOwnerAccount portID)
  | _ => None
  end.

Definition store_effect {Capability : Type} (c : Call Capability)
    (store : gmap string string) : gmap string string :=
  match c with
  | CallBindPort portID => <[types.KeyPort portID := String "001" EmptyString]> store
  | CallSetActiveChannelID portID channelID =>
      <[types.KeyActiveChannel portID := channelID]> store
  | CallDeleteActiveChannelID portID => delete (types.KeyActiveChannel portID) store
  | CallSetInterchainAccountAddress portID address =>
      <[types.KeyOwnerAccount portID := address]> store
  | _ => store
  end.

(** The keys of the store that start with a prefix, in ascending order: the
    keys the prefix iterator visits. *)
Definition keys_under (prefix : string) (store : gmap string string) : list string :=
  merge_sort String.le
    (filter (λ key, String.prefix prefix key = true) (map_to_list store).*1).

(** The value a call writes under its key; [None] for a call that deletes
    its key or writes nothing. *)
Definition written_value {Capability : Type} (c : Call Capability) : option string :=
  match c with
  | CallBindPort _ => Some (String "001" EmptyString)
  | CallSetActiveChannelID _ channelID => Some channelID
  | CallSetInterchainAccountAddress _ address => Some address
  | _ => None
  end.

(** The pieces of a split put together again, the separator between them;
    the number of occurrences of a byte in a string. *)
Fixpoint join_pieces (pieces : list string) (sep : ascii) : string :=
  match pieces with
  | [] => EmptyString
  | [piece] => piece
  | piece :: pieces' => piece +:+ String sep (join_pieces pieces' sep)
  end.

Fixpoint count_byte (c : ascii) (s : string) : nat :=
  match s with
  | EmptyString => 0
  | String c' s' => (if decide (c' = c) then 1 else 0) + count_byte c s'
  end.

(** Every port record holds the sentinel byte. *)
Definition ports_marked (store : gmap string string) : Prop :=
  ∀ portID value, store !! types.KeyPort portID = Some value →
    value = String "001" EmptyString.

(** Every key of the store is a port key, an active-channel key or an
    address key. *)
Definition keeper_keys (store : gmap string string) : Prop :=
  ∀ key, is_Some (store !! key) →
    ∃ portID, key = types.KeyPort portID
              ∨ key = types.KeyActiveChannel portID
              ∨ key = types.KeyOwnerAccount portID.

(** Every record under the port prefix is a port record. *)
Definition ports_wf (store : gmap string string) : Prop :=
  ∀ key, is_Some (store !! key) → String.prefix types.PortKeyPrefix key = true →
    ∃ portID, key = types.KeyPort portID.

(** No record is kept under the port prefix. *)
Definition no_ports (store : gmap string string) : Prop :=
  ∀ key, String.prefix types.PortKeyPrefix key = true → store !! key = None.


(** ** A concrete keeper, for evaluating the operations

    The world is the list of ports bound so far; a capability is the index
    of its port in that list. *)

Module demo.

Definition portKeeper : types.PortKeeper (list string) nat :=
  types.mkPortKeeper _ _ (λ portID w, (length w, w ++ [portID])).

Definition accountKeeper : types.AccountKeeper :=
  types.mkAccountKeeper (λ name, Some ("module:" +:+ name)).

Definition scopedKeeper : types.ScopedKeeper (list string) nat (sdkerrors.error nat) :=
  types.mkScopedKeeper _ _ _
    (λ name w, list_find (λ p, host.PortPath p = name) w ≫= λ r, Some r.1)
    (λ cap name w, bool_decide (host.PortPath <$> (w !! cap) = Some name))
    (λ cap name w, (None, w)).

Definition keeper : Keeper (list string) nat nat :=
  mkKeeper portKeeper accountKeeper scopedKeeper.

#[global] Instance package : types.Package nat := {|
  types.ErrInvalidVersion := 5;
  types.VersionPrefix := "ics27-1";
  types.ModuleName := "interchainaccounts";
  types.GenerateAddress base seed := (λ b, b +:+ "|" +:+ seed) <$> base;
  types.AccAddress_String a := default "" a;
  types.NewAppVersion versionPrefix accAddr := versionPrefix +:+ "/" +:+ accAddr
|}.

Definition ctx0 : sdk.Context (list string) := sdk.mkContext ∅ [].

End demo.

(** * Properties *)

(** ** Strings and keys *)

Lemma string_app_assoc (a b c : string) : (a +:+ b) +:+ c = a +:+ (b +:+ c).
Proof.
  induction a as [|x a IH]; [done|].
  change (String x ((a +:+ b) +:+ c) = String x (a +:+ b +:+ c)). by rewrite IH.
Qed.

Lemma string_app_empty_r (a : string) : a +:+ EmptyString = a.
Proof.
  induction a as [|x a IH]; [done|].
  change (String x (a +:+ EmptyString) = String x a). by rewrite IH.
Qed.

Lemma occurs_in_middle (a piece b : string) : occurs_in piece (a +:+ piece +:+ b).
Proof. by exists a, b. Qed.

Lemma occurs_in_end (a piece : string) : occurs_in piece (a +:+ piece).
Proof. exists a, EmptyString. by rewrite string_app_empty_r. Qed.

Lemma KeyPort_inj p q : types.KeyPort p = types.KeyPort q → p = q.
Proof. intros Heq. by injection Heq. Qed.

Lemma KeyActiveChannel_inj p q : types.KeyActiveChannel p = types.KeyActiveChannel q → p = q.
Proof. intros Heq. by injection Heq. Qed.

Lemma KeyOwnerAccount_inj p q : types.KeyOwnerAccount p = types.KeyOwnerAccount q → p = q.
Proof. intros Heq. by injection Heq. Qed.

Lemma KeyPort_KeyActiveChannel p q : types.KeyPort p ≠ types.KeyActiveChannel q.
Proof. discriminate. Qed.

Lemma KeyPort_KeyOwnerAccount p q : types.KeyPort p ≠ types.KeyOwnerAccount q.
Proof. discriminate. Qed.

Lemma KeyActiveChannel_KeyOwnerAccount p q : types.KeyActiveChannel p ≠ types.KeyOwnerAccount q.
Proof. discriminate. Qed.

Lemma KeyPort_prefix p : String.prefix types.PortKeyPrefix (types.KeyPort p) = true.
Proof. reflexivity. Qed.

Lemma KeyActiveChannel_prefix p :
  String.prefix types.PortKeyPrefix (types.KeyActiveChannel p) = false.
Proof. reflexivity. Qed.

Lemma KeyOwnerAccount_prefix p :
  String.prefix types.PortKeyPrefix (types.KeyOwnerAccount p) = false.
Proof. reflexivity. Qed.

(** ** What each method does to the store and what the getters read *)

Section keeper_facts.

Context {World Capability RegisteredError : Type}.
Context `{!types.Package RegisteredError}.

Implicit Types (k : Keeper World Capability RegisteredError).
Implicit Types (ctx : sdk.Context World) (store : gmap string string).

#[local] Existing Instances M_ret M_bind.

Ltac run_M :=
  unfold mbind, M_bind, bind, mret, M_ret, ret, store_Has, store_Get, store_Set,
    store_Delete, store_PrefixIterator, call, query; simpl.

(** A getter reads the record under its key, if there is one. *)
Lemma read_record (key : string) ctx :
  (if negb (bool_decide (is_Some (sdk.KVStore ctx !! key)))
   then λ ctx0 : sdk.Context World, (EmptyString, false, ctx0)
   else λ ctx0, (default EmptyString (sdk.KVStore ctx0 !! key), true, ctx0)) ctx =
  (match sdk.KVStore ctx !! key with
   | Some value => (value, true)
   | None => (EmptyString, false)
   end, ctx).
Proof.
  destruct (sdk.KVStore ctx !! key) as [value|] eqn:Hkey.
  - rewrite bool_decide_eq_true_2 by eauto. simpl. by rewrite Hkey.
  - rewrite bool_decide_eq_false_2 by (by intros [? ?]). done.
Qed.

Lemma SetActiveChannelID_eq k p c ctx :
  SetActiveChannelID k p c ctx =
    (tt, sdk.mkContext (<[types.KeyActiveChannel p := c]> (sdk.KVStore ctx)) (sdk.world ctx)).
Proof. reflexivity. Qed.

Lemma DeleteActiveChannelID_eq k p ctx :
  DeleteActiveChannelID k p ctx =
    (tt, sdk.mkContext (delete (types.KeyActiveChannel p) (sdk.KVStore ctx)) (sdk.world ctx)).
Proof. reflexivity. Qed.

Lemma SetInterchainAccountAddress_eq k p a ctx :
  SetInterchainAccountAddress k p a ctx =
    (tt, sdk.mkContext (<[types.KeyOwnerAccount p := a]> (sdk.KVStore ctx)) (sdk.world ctx)).
Proof. reflexivity. Qed.

Lemma BindPort_KVStore k p ctx :
  sdk.KVStore (BindPort k p ctx).2 =
    <[types.KeyPort p := String "001" EmptyString]> (sdk.KVStore ctx).
Proof.
  unfold BindPort. run_M.
  by destruct (types.BindPort (portKeeper k) p (sdk.world ctx)).
Qed.

Lemma GetActiveChannelID_eq k p ctx :
  GetActiveChannelID k p ctx =
    (match sdk.KVStore ctx !! types.KeyActiveChannel p with
     | Some channelID => (channelID, true)
     | None => (EmptyString, false)
     end, ctx).
Proof.
  unfold GetActiveChannelID. run_M. apply read_record.
Qed.

Lemma IsActiveChannel_eq k p ctx :
  IsActiveChannel k p ctx =
    (bool_decide (is_Some (sdk.KVStore ctx !! types.KeyActiveChannel p)), ctx).
Proof.
  unfold IsActiveChannel. unfold mbind at 1, M_bind at 1, bind at 1.
  rewrite GetActiveChannelID_eq.
  by destruct (sdk.KVStore ctx !! types.KeyActiveChannel p) as [channelID|].
Qed.

Lemma GetInterchainAccountAddress_eq k p ctx :
  GetInterchainAccountAddress k p ctx =
    (match sdk.KVStore ctx !! types.KeyOwnerAccount p with
     | Some address => (address, true)
     | None => (EmptyString, false)
     end, ctx).
Proof.
  unfold GetInterchainAccountAddress. run_M. apply read_record.
Qed.

Lemma NegotiateAppVersion_ctx k order connectionID portID counterparty proposedVersion ctx :
  (NegotiateAppVersion k order connectionID portID counterparty proposedVersion ctx).2 = ctx.
Proof. unfold NegotiateAppVersion. by case_bool_decide. Qed.

Lemma discard_result {A : Type} (m : M World A) ctx :
  ((m ≫= λ _, ret tt) ctx).2 = (m ctx).2.
Proof. unfold mbind, M_bind, bind. by destruct (m ctx). Qed.

Lemma exec_KVStore k (c : Call Capability) ctx :
  sdk.KVStore (exec k c ctx).2 = store_effect c (sdk.KVStore ctx).
Proof.
  destruct c; simpl; rewrite ?discard_result.
  - reflexivity.
  - apply BindPort_KVStore.
  - reflexivity.
  - reflexivity.
  - unfold ClaimCapability. run_M.
    by destruct (types.ClaimCapability (scopedKeeper k) cap name (sdk.world ctx)).
  - by rewrite GetActiveChannelID_eq.
  - reflexivity.
  - reflexivity.
  - by rewrite IsActiveChannel_eq.
  - by rewrite GetInterchainAccountAddress_eq.
  - reflexivity.
  - by rewrite NegotiateAppVersion_ctx.
Qed.

Lemma run_cons k (c : Call Capability) calls ctx :
  run k (c :: calls) ctx = run k calls (exec k c ctx).2.
Proof.
  simpl. unfold mbind, M_bind, bind. by destruct (exec k c ctx).
Qed.

Lemma run_app k (calls1 calls2 : list (Call Capability)) ctx :
  run k (calls1 ++ calls2) ctx = run k calls2 (run k calls1 ctx).2.
Proof.
  revert ctx. induction calls1 as [|c calls1 IH]; intros ctx; [done|].
  rewrite <- app_comm_cons, !run_cons. apply IH.
Qed.

Lemma run_KVStore k (calls : list (Call Capability)) ctx :
  sdk.KVStore (run k calls ctx).2 = foldl (λ store c, store_effect c store) (sdk.KVStore ctx) calls.
Proof.
  revert ctx. induction calls as [|c calls IH]; intros ctx; [done|].
  rewrite run_cons, IH, exec_KVStore. done.
Qed.

(** A call leaves every record alone but the one it names. *)
Lemma store_effect_frame (c : Call Capability) store key :
  written_key c ≠ Some key → store_effect c store !! key = store !! key.
Proof.
  destruct c; simpl; intros Hkey; try done.
  - apply lookup_insert_ne. congruence.
  - apply lookup_insert_ne. congruence.
  - apply lookup_delete_ne. congruence.
  - apply lookup_insert_ne. congruence.
Qed.

Lemma run_frame k (calls : list (Call Capability)) ctx key :
  (∀ c, c ∈ calls → written_key c ≠ Some key) →
  sdk.KVStore (run k calls ctx).2 !! key = sdk.KVStore ctx !! key.
Proof.
  revert ctx. induction calls as [|c calls IH]; intros ctx Hcalls; [done|].
  rewrite run_cons, IH, exec_KVStore.
  - apply store_effect_frame, Hcalls. left.
  - intros c' Hc'. apply Hcalls. by right.
Qed.

Lemma written_key_owner (c : Call Capability) p :
  (∀ a, c ≠ CallSetInterchainAccountAddress p a) →
  written_key c ≠ Some (types.KeyOwnerAccount p).
Proof.
  intros Hc. destruct c; simpl; try done.
  intros Heq. assert (portID = p) as -> by (apply KeyOwnerAccount_inj; congruence).
  by eapply Hc.
Qed.

End keeper_facts.

(** ** The records kept under one key *)

Lemma filter_key_absent (l : list (string * string)) key :
  key ∉ l.*1 → filter (λ kv, kv.1 = key) l = [].
Proof.
  induction l as [|[key' value'] l IH]; [done|].
  rewrite fmap_cons, not_elem_of_cons. simpl. intros [Hne Hnotin].
  rewrite filter_cons_False by (simpl; congruence). by apply IH.
Qed.

Lemma filter_key_present (l : list (string * string)) key value :
  NoDup l.*1 → (key, value) ∈ l → filter (λ kv, kv.1 = key) l = [(key, value)].
Proof.
  induction l as [|[key' value'] l IH]; [by intros _ ?%elem_of_nil|].
  rewrite fmap_cons, NoDup_cons, elem_of_cons. simpl.
  intros [Hnotin Hnodup] [Heq|Hin].
  - injection Heq as -> ->.
    rewrite filter_cons_True by done. by rewrite filter_key_absent.
  - assert (key' ≠ key) as Hne.
    { intros ->. apply Hnotin. by apply (list_elem_of_fmap_2 fst) in Hin. }
    rewrite filter_cons_False by (simpl; congruence). by apply IH.
Qed.

Lemma records_at_lookup key (store : gmap string string) :
  records_at key store =
    match store !! key with
    | Some value => [(key, value)]
    | None => []
    end.
Proof.
  unfold records_at. destruct (store !! key) as [value|] eqn:Hkey.
  - apply filter_key_present; [apply NoDup_fst_map_to_list|].
    by apply elem_of_map_to_list.
  - apply filter_key_absent. intros ([key' value'] & -> & Hin)%list_elem_of_fmap_1.
    apply elem_of_map_to_list in Hin. simpl in Hkey. congruence.
Qed.

(** ** Splitting a key *)

Example Split_key :
  strings.Split "port/icacontroller-1" "/" = ["port"; "icacontroller-1"]
  ∧ strings.Split "port/a/b" "/" = ["port"; "a"; "b"]
  ∧ strings.Split "/a//" "/" = [""; "a"; ""; ""]
  ∧ strings.Split "portfolio" "/" = ["portfolio"]
  ∧ strings.Split "" "/" = [""].
Proof. repeat split; reflexivity. Qed.

Lemma Split_first s : strings.Split s "/" !! 0%nat = Some (before_slash s).
Proof.
  induction s as [|c s IH]; [done|]. simpl.
  destruct (decide (c = "/"%char)) as [->|Hc]; [done|].
  destruct (strings.Split s "/") as [|piece pieces]; [done|].
  simpl in *. congruence.
Qed.

(** The second piece of a split key is there when the key has a slash, and
    is then the piece between the first two slashes. *)
Lemma Split_second s :
  strings.Split s "/" !! 1%nat =
    if has_slash s then Some (between_slashes s) else None.
Proof.
  unfold between_slashes. induction s as [|c s IH]; [done|]. simpl.
  destruct (decide (c = "/"%char)) as [->|Hc].
  - apply Split_first.
  - pose proof (Split_first s) as Hfirst.
    destruct (strings.Split s "/") as [|piece pieces]; [done|]. done.
Qed.

Lemma before_slash_no_slash s : has_slash s = false → before_slash s = s.
Proof.
  induction s as [|c s IH]; [done|]. simpl.
  destruct (decide (c = "/"%char)); [done|]. intros Hs. by rewrite IH.
Qed.

Lemma has_slash_before_slash s : has_slash (before_slash s) = false.
Proof.
  induction s as [|c s IH]; [done|]. simpl.
  destruct (decide (c = "/"%char)) as [|Hc]; [done|]. simpl.
  by destruct (decide (c = "/"%char)).
Qed.

Lemma before_slash_app a b : has_slash a = false → before_slash (a +:+ "/" +:+ b) = a.
Proof.
  induction a as [|c a IH]; [done|]. simpl.
  change (String c a +:+ "/" +:+ b) with (String c (a +:+ "/" +:+ b)). simpl.
  destruct (decide (c = "/"%char)); [done|]. intros Ha. by rewrite IH.
Qed.

Lemma has_slash_app a b : has_slash (a +:+ "/" +:+ b) = true.
Proof.
  induction a as [|c a IH]; [done|].
  change (String c a +:+ "/" +:+ b) with (String c (a +:+ "/" +:+ b)). simpl.
  by destruct (decide (c = "/"%char)).
Qed.

Lemma has_slash_KeyPort p : has_slash (types.KeyPort p) = true.
Proof. reflexivity. Qed.

Lemma between_slashes_KeyPort p : between_slashes (types.KeyPort p) = before_slash p.
Proof. reflexivity. Qed.

(** ** The prefix iterator *)

Lemma elem_of_map_keys (store : gmap string string) key :
  key ∈ (map_to_list store).*1 ↔ is_Some (store !! key).
Proof.
  rewrite list_elem_of_fmap. split.
  - intros ([key' value] & -> & Hin). apply elem_of_map_to_list in Hin. by eexists.
  - intros [value Hkey]. exists (key, value). split; [done|].
    by apply elem_of_map_to_list.
Qed.

Lemma elem_of_keys_under prefix store key :
  key ∈ keys_under prefix store ↔
    String.prefix prefix key = true ∧ is_Some (store !! key).
Proof.
  unfold keys_under.
  by rewrite merge_sort_Permutation, list_elem_of_filter, elem_of_map_keys.
Qed.

Lemma NoDup_keys_under prefix store : NoDup (keys_under prefix store).
Proof.
  unfold keys_under. rewrite merge_sort_Permutation.
  apply NoDup_filter, NoDup_fst_map_to_list.
Qed.

Lemma Sorted_keys_under prefix store : Sorted String.le (keys_under prefix store).
Proof. apply (Sorted_merge_sort String.le). Qed.

Lemma KVStorePrefixIterator_keys store prefix :
  (sdk.KVStorePrefixIterator store prefix).*1 = keys_under prefix store.
Proof.
  unfold sdk.KVStorePrefixIterator, keys_under.
  rewrite <- list_fmap_compose. apply list_fmap_id.
Qed.

(** The keys under a prefix are the sorted list of the keys that are there. *)
Lemma keys_under_unique prefix store (keys : list string) :
  Sorted String.le keys → NoDup keys →
  (∀ key, key ∈ keys ↔ String.prefix prefix key = true ∧ is_Some (store !! key)) →
  keys_under prefix store = keys.
Proof.
  intros Hsorted Hnodup Hkeys.
  apply (Sorted_unique String.le); [apply Sorted_keys_under | done |].
  apply NoDup_Permutation; [apply NoDup_keys_under | done |].
  intros key. by rewrite elem_of_keys_under, Hkeys.
Qed.

(** ** The loop of [GetAllPorts] *)

Lemma GetAllPorts_loop_Some (iterator : list (string * string)) ports :
  (∀ kv, kv ∈ iterator → has_slash kv.1 = true) →
  GetAllPorts_loop iterator ports =
    Some (ports ++ (between_slashes <$> iterator.*1)).
Proof.
  revert ports. induction iterator as [|[key value] iterator IH]; intros ports Hslash.
  - simpl. by rewrite app_nil_r.
  - simpl. rewrite Split_second.
    assert (has_slash key = true) as -> by (apply (Hslash (key, value)); left).
    rewrite IH by (intros kv Hkv; apply Hslash; by right).
    by rewrite <- app_assoc.
Qed.

Lemma store_effect_ports_wf {Capability : Type} (c : Call Capability) store :
  ports_wf store → ports_wf (store_effect c store).
Proof.
  intros Hwf key. destruct c; simpl; try apply Hwf.
  - rewrite lookup_insert_is_Some. intros [<-|[_ Hkey]] Hprefix; [by eexists|].
    by apply Hwf.
  - rewrite lookup_insert_is_Some. intros [<-|[_ Hkey]] Hprefix; [done|].
    by apply Hwf.
  - rewrite lookup_delete_is_Some. intros [_ Hkey] Hprefix. by apply Hwf.
  - rewrite lookup_insert_is_Some. intros [<-|[_ Hkey]] Hprefix; [done|].
    by apply Hwf.
Qed.

Lemma no_ports_wf store : no_ports store → ports_wf store.
Proof.
  intros Hnone key [value Hkey] Hprefix. rewrite Hnone in Hkey; done.
Qed.

(** A record under the port prefix whose key has no slash makes
    [keySplit[1]] panic. *)
Example GetAllPorts_panics :
  (GetAllPorts demo.keeper (sdk.mkContext {[ "portfolio" := "x" ]} [])).1 = None.
Proof. vm_compute. reflexivity. Qed.

Example GetAllPorts_sorted :
  (GetAllPorts demo.keeper
     (run demo.keeper [CallBindPort "transfer"; CallBindPort "icacontroller-2";
                       CallSetActiveChannelID "icacontroller-2" "channel-0";
                       CallBindPort "icacontroller-1"] demo.ctx0).2).1 =
    Some ["icacontroller-1"; "icacontroller-2"; "transfer"].
Proof. vm_compute. reflexivity. Qed.

Section ports.

Context {World Capability RegisteredError : Type}.
Context `{!types.Package RegisteredError}.

Implicit Types (k : Keeper World Capability RegisteredError).
Implicit Types (ctx : sdk.Context World).

Lemma run_ports_wf k (calls : list (Call Capability)) ctx :
  ports_wf (sdk.KVStore ctx) → ports_wf (sdk.KVStore (run k calls ctx).2).
Proof.
  revert ctx. induction calls as [|c calls IH]; intros ctx Hwf; [done|].
  rewrite run_cons. apply IH. rewrite exec_KVStore. by apply store_effect_ports_wf.
Qed.

Lemma GetAllPorts_eq k ctx :
  ports_wf (sdk.KVStore ctx) →
  GetAllPorts k ctx =
    (Some (between_slashes <$> keys_under types.PortKeyPrefix (sdk.KVStore ctx)), ctx).
Proof.
  intros Hwf. unfold GetAllPorts, mbind, M_bind, bind, store_PrefixIterator, ret. simpl.
  rewrite GetAllPorts_loop_Some, KVStorePrefixIterator_keys; [done|].
  intros [key value] Hkv.
  apply (list_elem_of_fmap_2 fst) in Hkv. rewrite KVStorePrefixIterator_keys in Hkv.
  apply elem_of_keys_under in Hkv as [Hprefix Hkey].
  destruct (Hwf key Hkey Hprefix) as [portID ->]. apply has_slash_KeyPort.
Qed.

(** The port records after a run of [BindPort] calls. *)
Lemma BindPorts_lookup k (portIDs : list string) ctx key :
  String.prefix types.PortKeyPrefix key = true →
  is_Some (sdk.KVStore (run k (CallBindPort <$> portIDs) ctx).2 !! key) ↔
    is_Some (sdk.KVStore ctx !! key) ∨ ∃ p, p ∈ portIDs ∧ key = types.KeyPort p.
Proof.
  intros Hprefix. revert ctx.
  induction portIDs as [|p portIDs IH]; intros ctx.
  - simpl. split; [by left|]. intros [?|(p & Hp & _)]; [done|]. by apply elem_of_nil in Hp.
  - rewrite fmap_cons, run_cons, IH, exec_KVStore. simpl.
    rewrite lookup_insert_is_Some. split.
    + intros [[<-|[_ Hkey]]|(q & Hq & ->)].
      * right. exists p. split; [left|done].
      * by left.
      * right. exists q. split; [by right|done].
    + intros [Hkey|(q & Hq & ->)].
      * destruct (decide (types.KeyPort p = key)) as [Heq|Hne]; left; [by left|by right].
      * apply elem_of_cons in Hq as [->|Hq]; [left; by left|].
        right. by exists q.
Qed.

End ports.

(** ** The version negotiator *)

Section negotiator.

Context {World Capability RegisteredError : Type}.
Context `{!types.Package RegisteredError}.

Implicit Types (k : Keeper World Capability RegisteredError).
Implicit Types (ctx : sdk.Context World).

(** C1: when the proposed version is the supported version prefix,
    [NegotiateAppVersion] returns no error and the version string built by
    [NewAppVersion] from the prefix and the address generated from the
    module account address and the counterparty port identifier; the
    context is left as it was, and the result is the same in any context
    (two calls with the same inputs return the same string). *)
Theorem NegotiateAppVersion_supported
    k order connectionID portID counterparty proposedVersion ctx :
  proposedVersion = types.VersionPrefix →
  NegotiateAppVersion k order connectionID portID counterparty proposedVersion ctx =
    ((types.NewAppVersion types.VersionPrefix
        (types.AccAddress_String
           (types.GenerateAddress
              (types.GetModuleAddress (accountKeeper k) types.ModuleName)
              (channeltypes.PortId counterparty))),
      None), ctx)
  ∧ ∀ ctx',
      (NegotiateAppVersion k order connectionID portID counterparty proposedVersion ctx').1 =
      (NegotiateAppVersion k order connectionID portID counterparty proposedVersion ctx).1.
Proof.
  intros ->. unfold NegotiateAppVersion.
  rewrite bool_decide_eq_true_2 by done. done.
Qed.

(** C2: when the proposed version is not the supported version prefix,
    [NegotiateAppVersion] returns the empty version and [ErrInvalidVersion]
    wrapped with a message in which both the supported prefix and the
    proposed version occur; the context is left as it was. *)
Theorem NegotiateAppVersion_mismatch
    k order connectionID portID counterparty proposedVersion ctx :
  proposedVersion ≠ types.VersionPrefix →
  ∃ err,
    NegotiateAppVersion k order connectionID portID counterparty proposedVersion ctx =
      ((EmptyString, Some err), ctx)
    ∧ sdkerrors.parent_of err = types.ErrInvalidVersion
    ∧ sdkerrors.message_of err =
        "failed to negotiate app version: expected " +:+ types.VersionPrefix
        +:+ ", got " +:+ proposedVersion
    ∧ occurs_in types.VersionPrefix (sdkerrors.message_of err)
    ∧ occurs_in proposedVersion (sdkerrors.message_of err).
Proof.
  intros Hne. unfold NegotiateAppVersion.
  rewrite bool_decide_eq_false_2 by done. simpl.
  eexists. split; [reflexivity|]. simpl. repeat split.
  - apply occurs_in_middle.
  - rewrite <- (string_app_assoc _ ", got "), <- string_app_assoc.
    apply occurs_in_end.
Qed.

(** C5: the result of [NegotiateAppVersion] depends neither on the channel
    ordering, nor on the connection identifier, nor on the local port
    identifier (nor on the counterparty's channel identifier or the
    context): two calls that agree on the proposed version, the
    counterparty port identifier and the module account address return the
    same version and the same error. *)
Theorem NegotiateAppVersion_unused_arguments
    k1 k2 order1 order2 connectionID1 connectionID2 portID1 portID2
    counterparty1 counterparty2 proposedVersion ctx1 ctx2 :
  channeltypes.PortId counterparty1 = channeltypes.PortId counterparty2 →
  types.GetModuleAddress (accountKeeper k1) types.ModuleName =
    types.GetModuleAddress (accountKeeper k2) types.ModuleName →
  (NegotiateAppVersion k1 order1 connectionID1 portID1 counterparty1 proposedVersion ctx1).1 =
  (NegotiateAppVersion k2 order2 connectionID2 portID2 counterparty2 proposedVersion ctx2).1.
Proof.
  intros Hport Haddr. unfold NegotiateAppVersion.
  case_bool_decide; simpl; [|done]. by rewrite Hport, Haddr.
Qed.

End negotiator.

(** ** The active-channel tracker and the address registry *)

Section registries.

Context {World Capability RegisteredError : Type}.
Context `{!types.Package RegisteredError}.

Implicit Types (k : Keeper World Capability RegisteredError).
Implicit Types (ctx : sdk.Context World).

(** C4: after [SetActiveChannelID(p, c1)] and then
    [SetActiveChannelID(p, c2)], [GetActiveChannelID(p)] returns
    [(c2, true)], and the store keeps one active-channel record for [p],
    the one of [c2]. *)
Theorem SetActiveChannelID_last_write_wins k p c1 c2 ctx :
  let ctx' := (SetActiveChannelID k p c2 (SetActiveChannelID k p c1 ctx).2).2 in
  (GetActiveChannelID k p ctx').1 = (c2, true)
  ∧ records_at (types.KeyActiveChannel p) (sdk.KVStore ctx') =
      [(types.KeyActiveChannel p, c2)].
Proof.
  intros ctx'. subst ctx'.
  rewrite GetActiveChannelID_eq, records_at_lookup, !SetActiveChannelID_eq. simpl.
  by rewrite lookup_insert_eq.
Qed.

(** C7: [SetInterchainAccountAddress(p, addr)] followed by
    [GetInterchainAccountAddress(p)] returns [(addr, true)]; and when the
    store holds no address for [p] and none of the calls made since sets
    one, [GetInterchainAccountAddress(p)] returns the empty string and
    [false], a boolean and not an error. *)
Theorem InterchainAccountAddress_round_trip
    k p addr ctx (calls : list (Call Capability)) ctx0 :
  sdk.KVStore ctx0 !! types.KeyOwnerAccount p = None →
  (∀ a, CallSetInterchainAccountAddress p a ∉ calls) →
  (GetInterchainAccountAddress k p (SetInterchainAccountAddress k p addr ctx).2).1 =
    (addr, true)
  ∧ (GetInterchainAccountAddress k p (run k calls ctx0).2).1 = (EmptyString, false).
Proof.
  intros Hunset Hcalls. split.
  - rewrite GetInterchainAccountAddress_eq, SetInterchainAccountAddress_eq. simpl.
    by rewrite lookup_insert_eq.
  - rewrite GetInterchainAccountAddress_eq. simpl.
    rewrite run_frame, Hunset; [done|].
    intros c Hc. apply written_key_owner. intros a ->. by eapply Hcalls.
Qed.

(** C8: after any sequence of [SetActiveChannelID] calls for [p],
    [DeleteActiveChannelID(p)] makes [IsActiveChannel(p)] false and
    [GetActiveChannelID(p)] return the empty string and [false]. *)
Theorem DeleteActiveChannelID_inactive k p (channelIDs : list string) ctx :
  let ctx1 := (run k (CallSetActiveChannelID p <$> channelIDs) ctx).2 in
  let ctx2 := (DeleteActiveChannelID k p ctx1).2 in
  (IsActiveChannel k p ctx2).1 = false
  ∧ (GetActiveChannelID k p ctx2).1 = (EmptyString, false).
Proof.
  intros ctx1 ctx2. subst ctx2.
  rewrite IsActiveChannel_eq, GetActiveChannelID_eq, DeleteActiveChannelID_eq. simpl.
  by rewrite lookup_delete_eq.
Qed.

(** C9: for two different ports [p] and [p'], each of
    [SetActiveChannelID(p, c)], [DeleteActiveChannelID(p)],
    [SetInterchainAccountAddress(p, a)] and [BindPort(p)] leaves the port
    record, the active-channel record and the address record of [p'] as
    they were, and leaves the records of the two other kinds of [p] itself
    as they were. *)
Theorem writes_are_confined k p p' c a ctx :
  p ≠ p' →
  let unchanged (ctx' : sdk.Context World) (key : string) :=
    sdk.KVStore ctx' !! key = sdk.KVStore ctx !! key in
  let unchanged_for_other_port (ctx' : sdk.Context World) :=
    unchanged ctx' (types.KeyPort p')
    ∧ unchanged ctx' (types.KeyActiveChannel p')
    ∧ unchanged ctx' (types.KeyOwnerAccount p') in
  (unchanged_for_other_port (SetActiveChannelID k p c ctx).2
   ∧ unchanged (SetActiveChannelID k p c ctx).2 (types.KeyPort p)
   ∧ unchanged (SetActiveChannelID k p c ctx).2 (types.KeyOwnerAccount p))
  ∧ (unchanged_for_other_port (DeleteActiveChannelID k p ctx).2
     ∧ unchanged (DeleteActiveChannelID k p ctx).2 (types.KeyPort p)
     ∧ unchanged (DeleteActiveChannelID k p ctx).2 (types.KeyOwnerAccount p))
  ∧ (unchanged_for_other_port (SetInterchainAccountAddress k p a ctx).2
     ∧ unchanged (SetInterchainAccountAddress k p a ctx).2 (types.KeyPort p)
     ∧ unchanged (SetInterchainAccountAddress k p a ctx).2 (types.KeyActiveChannel p))
  ∧ (unchanged_for_other_port (BindPort k p ctx).2
     ∧ unchanged (BindPort k p ctx).2 (types.KeyActiveChannel p)
     ∧ unchanged (BindPort k p ctx).2 (types.KeyOwnerAccount p)).
Proof.
  intros Hne unchanged unchanged_for_other_port.
  subst unchanged_for_other_port unchanged. simpl.
  assert (types.KeyPort p ≠ types.KeyPort p') as HP
    by (by intros ?%KeyPort_inj).
  assert (types.KeyActiveChannel p ≠ types.KeyActiveChannel p') as HA
    by (by intros ?%KeyActiveChannel_inj).
  assert (types.KeyOwnerAccount p ≠ types.KeyOwnerAccount p') as HO
    by (by intros ?%KeyOwnerAccount_inj).
  rewrite !BindPort_KVStore.
  repeat split;
    first [ apply lookup_insert_ne | apply lookup_delete_ne ];
    first [ done | discriminate ].
Qed.

(** C3, as the code has it: [SetInterchainAccountAddress] overwrites: after
    [SetInterchainAccountAddress(p, a1)] and then
    [SetInterchainAccountAddress(p, a2)], [GetInterchainAccountAddress(p)]
    returns [(a2, true)].  Every other call of the keeper preserves the
    stored address: after [SetInterchainAccountAddress(p, a1)] and any calls
    none of which is [SetInterchainAccountAddress] for [p],
    [GetInterchainAccountAddress(p)] returns [(a1, true)]. *)
Theorem SetInterchainAccountAddress_overwrites
    k p a1 a2 (calls : list (Call Capability)) ctx :
  (∀ a, CallSetInterchainAccountAddress p a ∉ calls) →
  let ctx1 := (SetInterchainAccountAddress k p a1 ctx).2 in
  (GetInterchainAccountAddress k p (SetInterchainAccountAddress k p a2 ctx1).2).1 =
    (a2, true)
  ∧ (GetInterchainAccountAddress k p (run k calls ctx1).2).1 = (a1, true).
Proof.
  intros Hcalls ctx1. subst ctx1. split.
  - rewrite GetInterchainAccountAddress_eq, !SetInterchainAccountAddress_eq. simpl.
    by rewrite lookup_insert_eq.
  - rewrite GetInterchainAccountAddress_eq. cbn [fst].
    rewrite run_frame.
    + rewrite SetInterchainAccountAddress_eq. simpl. by rewrite lookup_insert_eq.
    + intros c Hc. apply written_key_owner. intros a ->. by eapply Hcalls.
Qed.

End registries.

(** ** The port registry *)

Section port_registry.

Context {World Capability RegisteredError : Type}.
Context `{!types.Package RegisteredError}.

Implicit Types (k : Keeper World Capability RegisteredError).
Implicit Types (ctx : sdk.Context World).

(** C6: starting with no port bound, after any sequence of [BindPort] calls
    that binds the ports ["a"], ["b"] and ["c"], in any order and any of
    them any number of times, [GetAllPorts] returns ["a"], ["b"] and ["c"],
    each once. *)
Theorem GetAllPorts_each_bound_port_once k (portIDs : list string) ctx :
  no_ports (sdk.KVStore ctx) →
  (∀ p, p ∈ portIDs ↔ p ∈ ["a"; "b"; "c"]) →
  (GetAllPorts k (run k (CallBindPort <$> portIDs) ctx).2).1 = Some ["a"; "b"; "c"].
Proof.
  intros Hnone HportIDs.
  rewrite GetAllPorts_eq by by apply run_ports_wf, no_ports_wf.
  rewrite (keys_under_unique _ _ (types.KeyPort <$> ["a"; "b"; "c"])); [reflexivity|..].
  - by apply (bool_decide_unpack _).
  - by apply (bool_decide_unpack _).
  - intros key. split.
    + intros (p & -> & Hp)%list_elem_of_fmap_1. split; [apply KeyPort_prefix|].
      apply BindPorts_lookup; [apply KeyPort_prefix|].
      right. exists p. by rewrite HportIDs.
    + intros [Hprefix Hkey]. apply BindPorts_lookup in Hkey; [|done].
      destruct Hkey as [Hkey|(p & Hp & ->)].
      * rewrite Hnone in Hkey by done. by destruct Hkey.
      * apply list_elem_of_fmap_2. by rewrite <- HportIDs.
Qed.

(** C10: when every record under the port prefix is a port record,
    [GetAllPorts] returns, for each of these records in key order, the piece
    of its key between the first two slashes.  So for every bound port,
    the part of its identifier before its first slash is in the result: an
    identifier without a slash is returned as it is, and an identifier
    [a/b] with no slash in [a] is returned as [a] and is not itself in the
    result. *)
Theorem GetAllPorts_second_segment k ctx :
  ports_wf (sdk.KVStore ctx) →
  ∃ ports,
    (GetAllPorts k ctx).1 = Some ports
    ∧ ports = (λ kv, between_slashes kv.1) <$>
                sdk.KVStorePrefixIterator (sdk.KVStore ctx) types.PortKeyPrefix
    ∧ ∀ portID, is_Some (sdk.KVStore ctx !! types.KeyPort portID) →
        between_slashes (types.KeyPort portID) ∈ ports
        ∧ (has_slash portID = false →
             between_slashes (types.KeyPort portID) = portID ∧ portID ∈ ports)
        ∧ (∀ a b, portID = a +:+ "/" +:+ b → has_slash a = false →
             between_slashes (types.KeyPort portID) = a ∧ a ∈ ports ∧ portID ∉ ports).
Proof.
  intros Hwf. eexists. split; [by rewrite GetAllPorts_eq|].
  split; [by rewrite <- KVStorePrefixIterator_keys, <- list_fmap_compose|].
  intros portID Hbound.
  assert (between_slashes (types.KeyPort portID) ∈
            between_slashes <$> keys_under types.PortKeyPrefix (sdk.KVStore ctx)) as Hin.
  { apply list_elem_of_fmap_2, elem_of_keys_under. split; [apply KeyPort_prefix|done]. }
  split; [done|]. rewrite between_slashes_KeyPort in *. split.
  - intros Hslash. rewrite before_slash_no_slash in * by done. done.
  - intros a b -> Ha. rewrite before_slash_app in * by done.
    split; [done|]. split; [done|].
    intros (key & Heq & _)%list_elem_of_fmap_1.
    pose proof (has_slash_app a b) as Hslash.
    rewrite Heq in Hslash. unfold between_slashes in Hslash.
    by rewrite has_slash_before_slash in Hslash.
Qed.

End port_registry.

(** ** The statements at the concrete keeper *)

Lemma NegotiateAppVersion_supported_witness :
  "ics27-1" = types.VersionPrefix (Package := demo.package)
  ∧ NegotiateAppVersion demo.keeper channeltypes.ORDERED "connection-0" "icacontroller-1"
      (channeltypes.mkCounterparty "icahost" "channel-0") "ics27-1" demo.ctx0 =
    (("ics27-1/module:interchainaccounts|icahost", None), demo.ctx0).
Proof.
  split; [reflexivity|].
  exact (proj1 (NegotiateAppVersion_supported demo.keeper channeltypes.ORDERED
                  "connection-0" "icacontroller-1"
                  (channeltypes.mkCounterparty "icahost" "channel-0")
                  "ics27-1" demo.ctx0 eq_refl)).
Defined.

Lemma NegotiateAppVersion_mismatch_witness :
  "ics27-2" ≠ types.VersionPrefix (Package := demo.package)
  ∧ ∃ err,
      NegotiateAppVersion demo.keeper channeltypes.ORDERED "connection-0" "icacontroller-1"
        (channeltypes.mkCounterparty "icahost" "channel-0") "ics27-2" demo.ctx0 =
        ((EmptyString, Some err), demo.ctx0)
      ∧ sdkerrors.parent_of err = 5
      ∧ sdkerrors.message_of err =
          "failed to negotiate app version: expected ics27-1, got ics27-2"
      ∧ occurs_in "ics27-1" (sdkerrors.message_of err)
      ∧ occurs_in "ics27-2" (sdkerrors.message_of err).
Proof.
  assert ("ics27-2" ≠ types.VersionPrefix (Package := demo.package)) as Hne
    by discriminate.
  split; [exact Hne|].
  exact (NegotiateAppVersion_mismatch demo.keeper channeltypes.ORDERED
           "connection-0" "icacontroller-1"
           (channeltypes.mkCounterparty "icahost" "channel-0")
           "ics27-2" demo.ctx0 Hne).
Defined.

Lemma NegotiateAppVersion_unused_arguments_witness :
  (NegotiateAppVersion demo.keeper channeltypes.ORDERED "connection-0" "icacontroller-1"
     (channeltypes.mkCounterparty "icahost" "channel-0") "ics27-1" demo.ctx0).1 =
  (NegotiateAppVersion demo.keeper channeltypes.UNORDERED "connection-7" "icacontroller-2"
     (channeltypes.mkCounterparty "icahost" "channel-9") "ics27-1"
     (sdk.mkContext {[ "owner_account/p" := "cosmos1abc" ]} ["p"])).1.
Proof.
  exact (NegotiateAppVersion_unused_arguments demo.keeper demo.keeper
           channeltypes.ORDERED channeltypes.UNORDERED "connection-0" "connection-7"
           "icacontroller-1" "icacontroller-2"
           (channeltypes.mkCounterparty "icahost" "channel-0")
           (channeltypes.mkCounterparty "icahost" "channel-9")
           "ics27-1" demo.ctx0
           (sdk.mkContext {[ "owner_account/p" := "cosmos1abc" ]} ["p"])
           eq_refl eq_refl).
Defined.

Lemma InterchainAccountAddress_round_trip_witness :
  (GetInterchainAccountAddress demo.keeper "icacontroller-1"
     (SetInterchainAccountAddress demo.keeper "icacontroller-1" "cosmos1abc" demo.ctx0).2).1 =
    ("cosmos1abc", true)
  ∧ (GetInterchainAccountAddress demo.keeper "icacontroller-1"
       (run demo.keeper
          [CallBindPort "icacontroller-1";
           CallSetActiveChannelID "icacontroller-1" "channel-0";
           CallSetInterchainAccountAddress "icacontroller-2" "cosmos1xyz"]
          demo.ctx0).2).1 = (EmptyString, false).
Proof.
  apply (InterchainAccountAddress_round_trip demo.keeper "icacontroller-1" "cosmos1abc"
           demo.ctx0 _ demo.ctx0).
  - reflexivity.
  - intros a Hin.
    repeat (apply elem_of_cons in Hin as [Hin|Hin]; [discriminate Hin|]).
    by apply elem_of_nil in Hin.
Defined.

Lemma writes_are_confined_witness :
  "icacontroller-1" ≠ "icacontroller-2"
  ∧ sdk.KVStore (DeleteActiveChannelID demo.keeper "icacontroller-1"
                   (sdk.mkContext {[ "active_channel/icacontroller-2" := "channel-1" ]} [])).2
      !! types.KeyActiveChannel "icacontroller-2" = Some "channel-1".
Proof.
  assert ("icacontroller-1" ≠ "icacontroller-2") as Hne by discriminate.
  split; [exact Hne|].
  pose proof (writes_are_confined demo.keeper "icacontroller-1" "icacontroller-2"
                "channel-0" "cosmos1abc"
                (sdk.mkContext {[ "active_channel/icacontroller-2" := "channel-1" ]} [])
                Hne) as (_ & ((_ & Hactive & _) & _) & _).
  exact Hactive.
Defined.

Lemma SetInterchainAccountAddress_overwrites_witness :
  (GetInterchainAccountAddress demo.keeper "icacontroller-1"
     (SetInterchainAccountAddress demo.keeper "icacontroller-1" "cosmos1xyz"
        (SetInterchainAccountAddress demo.keeper "icacontroller-1" "cosmos1abc"
           demo.ctx0).2).2).1 = ("cosmos1xyz", true)
  ∧ (GetInterchainAccountAddress demo.keeper "icacontroller-1"
       (run demo.keeper
          [CallBindPort "icacontroller-1";
           CallDeleteActiveChannelID "icacontroller-1";
           CallSetInterchainAccountAddress "icacontroller-2" "cosmos1xyz"]
          (SetInterchainAccountAddress demo.keeper "icacontroller-1" "cosmos1abc"
             demo.ctx0).2).2).1 = ("cosmos1abc", true).
Proof.
  apply (SetInterchainAccountAddress_overwrites demo.keeper "icacontroller-1"
           "cosmos1abc" "cosmos1xyz" _ demo.ctx0).
  intros a Hin.
  repeat (apply elem_of_cons in Hin as [Hin|Hin]; [discriminate Hin|]).
  by apply elem_of_nil in Hin.
Defined.

(** The address stored for a port is replaced by a second
    [SetInterchainAccountAddress] for the same port. *)
Lemma SetInterchainAccountAddress_preserved_counterexample :
  "cosmos1xyz" ≠ "cosmos1abc"
  ∧ (GetInterchainAccountAddress demo.keeper "icacontroller-1"
       (SetInterchainAccountAddress demo.keeper "icacontroller-1" "cosmos1abc"
          demo.ctx0).2).1 = ("cosmos1abc", true)
  ∧ (GetInterchainAccountAddress demo.keeper "icacontroller-1"
       (SetInterchainAccountAddress demo.keeper "icacontroller-1" "cosmos1xyz"
          (SetInterchainAccountAddress demo.keeper "icacontroller-1" "cosmos1abc"
             demo.ctx0).2).2).1 = ("cosmos1xyz", true)
  ∧ (GetInterchainAccountAddress demo.keeper "icacontroller-1"
       (SetInterchainAccountAddress demo.keeper "icacontroller-1" "cosmos1xyz"
          (SetInterchainAccountAddress demo.keeper "icacontroller-1" "cosmos1abc"
             demo.ctx0).2).2).1 ≠
    (GetInterchainAccountAddress demo.keeper "icacontroller-1"
       (SetInterchainAccountAddress demo.keeper "icacontroller-1" "cosmos1abc"
          demo.ctx0).2).1.
Proof.
  split; [discriminate|]. split; [by vm_compute|]. split; [by vm_compute|].
  vm_compute. discriminate.
Qed.

Lemma GetAllPorts_each_bound_port_once_witness :
  no_ports (sdk.KVStore demo.ctx0)
  ∧ (∀ p, p ∈ ["b"; "c"; "b"; "a"; "c"] ↔ p ∈ ["a"; "b"; "c"])
  ∧ (GetAllPorts demo.keeper
       (run demo.keeper (CallBindPort <$> ["b"; "c"; "b"; "a"; "c"]) demo.ctx0).2).1 =
    Some ["a"; "b"; "c"].
Proof.
  assert (no_ports (sdk.KVStore demo.ctx0)) as Hnone by (intros key _; apply lookup_empty).
  assert (∀ p : string, p ∈ ["b"; "c"; "b"; "a"; "c"] ↔ p ∈ ["a"; "b"; "c"]) as Hports.
  { intros p. rewrite !elem_of_cons, !elem_of_nil. tauto. }
  split; [exact Hnone|]. split; [exact Hports|].
  exact (GetAllPorts_each_bound_port_once demo.keeper _ demo.ctx0 Hnone Hports).
Defined.

Lemma GetAllPorts_second_segment_witness :
  ports_wf (sdk.KVStore (run demo.keeper [CallBindPort "b"; CallBindPort "a/x"] demo.ctx0).2)
  ∧ ∃ ports,
      (GetAllPorts demo.keeper
         (run demo.keeper [CallBindPort "b"; CallBindPort "a/x"] demo.ctx0).2).1 = Some ports
      ∧ ports = ["a"; "b"] ∧ "a/x" ∉ ports.
Proof.
  assert (ports_wf (sdk.KVStore
            (run demo.keeper [CallBindPort "b"; CallBindPort "a/x"] demo.ctx0).2)) as Hwf.
  { apply run_ports_wf, no_ports_wf. intros key _. apply lookup_empty. }
  split; [exact Hwf|].
  destruct (GetAllPorts_second_segment demo.keeper _ Hwf) as (ports & Hget & Hports & Hbound).
  exists ports. split; [exact Hget|]. split.
  - rewrite Hports. vm_compute. reflexivity.
  - assert (is_Some (sdk.KVStore
              (run demo.keeper [CallBindPort "b"; CallBindPort "a/x"] demo.ctx0).2
              !! types.KeyPort "a/x")) as Hx by (vm_compute; eauto).
    destruct (Hbound "a/x" Hx) as (_ & _ & Hslash).
    destruct (Hslash "a" "x" eq_refl eq_refl) as (_ & _ & Hnotin).
    exact Hnotin.
Defined.

(** * Further properties of the keeper *)

(** ** When [GetAllPorts] panics *)

Lemma GetAllPorts_loop_None (iterator : list (string * string)) ports :
  GetAllPorts_loop iterator ports = None ↔
    ∃ key, key ∈ iterator.*1 ∧ has_slash key = false.
Proof.
  revert ports. induction iterator as [|[key value] iterator IH]; intros ports.
  - simpl. split; [done|]. intros (key & Hkey & _). by apply elem_of_nil in Hkey.
  - simpl. rewrite Split_second. destruct (has_slash key) eqn:Hslash.
    + rewrite IH. split.
      * intros (key' & Hin & Hkey'). exists key'. split; [by right|done].
      * intros (key' & Hin & Hkey'). exists key'. split; [|done].
        apply elem_of_cons in Hin as [->|Hin]; [congruence|done].
    + split; [|done]. intros _. exists key. split; [left|done].
Qed.

Lemma GetAllPorts_loop_keys (iterator iterator' : list (string * string)) ports :
  iterator.*1 = iterator'.*1 →
  GetAllPorts_loop iterator ports = GetAllPorts_loop iterator' ports.
Proof.
  revert iterator' ports.
  induction iterator as [|[key value] iterator IH];
    intros [|[key' value'] iterator'] ports Hkeys; try done.
  simpl in *. injection Hkeys as -> Hkeys.
  destruct (strings.Split key' "/" !! 1%nat); [by apply IH|done].
Qed.

Lemma store_effect_keeps_port_keys {Capability : Type} (c : Call Capability) store key :
  (∀ p, c ≠ CallBindPort p) →
  String.prefix types.PortKeyPrefix key = true →
  store_effect c store !! key = store !! key.
Proof.
  intros Hc Hprefix. apply store_effect_frame.
  destruct c; simpl; try done.
  - by destruct (Hc portID).
  - intros [= <-]. by rewrite KeyActiveChannel_prefix in Hprefix.
  - intros [= <-]. by rewrite KeyActiveChannel_prefix in Hprefix.
  - intros [= <-]. by rewrite KeyOwnerAccount_prefix in Hprefix.
Qed.

Lemma keys_under_store_effect {Capability : Type} (c : Call Capability) store :
  (∀ p, c ≠ CallBindPort p) →
  keys_under types.PortKeyPrefix (store_effect c store) =
    keys_under types.PortKeyPrefix store.
Proof.
  intros Hc.
  apply keys_under_unique; [apply Sorted_keys_under | apply NoDup_keys_under |].
  intros key. rewrite elem_of_keys_under. split.
  - intros [Hprefix Hkey]. split; [done|]. by rewrite store_effect_keeps_port_keys.
  - intros [Hprefix Hkey]. split; [done|]. by rewrite store_effect_keeps_port_keys in Hkey.
Qed.

Section port_registry_more.

Context {World Capability RegisteredError : Type}.
Context `{!types.Package RegisteredError}.

Implicit Types (k : Keeper World Capability RegisteredError).
Implicit Types (ctx : sdk.Context World).

Lemma GetAllPorts_unfold k ctx :
  (GetAllPorts k ctx).1 =
    GetAllPorts_loop (sdk.KVStorePrefixIterator (sdk.KVStore ctx) types.PortKeyPrefix) [].
Proof. reflexivity. Qed.

(** X1: [GetAllPorts] panics (on [keySplit[1]]) exactly when the store holds
    a record whose key starts with the port prefix and has no slash. *)
Theorem GetAllPorts_panics_iff k ctx :
  (GetAllPorts k ctx).1 = None ↔
    ∃ key, is_Some (sdk.KVStore ctx !! key)
           ∧ String.prefix types.PortKeyPrefix key = true
           ∧ has_slash key = false.
Proof.
  rewrite GetAllPorts_unfold, GetAllPorts_loop_None, KVStorePrefixIterator_keys.
  split.
  - intros (key & [Hprefix Hkey]%elem_of_keys_under & Hslash). by exists key.
  - intros (key & Hkey & Hprefix & Hslash). exists key.
    split; [by apply elem_of_keys_under|done].
Qed.

(** X2: when every record under the port prefix is a port record, as in a
    store without any, no run of keeper calls brings the store to a state
    in which [GetAllPorts] panics. *)
Theorem GetAllPorts_never_panics k (calls : list (Call Capability)) ctx :
  ports_wf (sdk.KVStore ctx) →
  is_Some (GetAllPorts k (run k calls ctx).2).1.
Proof.
  intros Hwf. rewrite GetAllPorts_eq by by apply run_ports_wf. by eexists.
Qed.

(** X3: a call other than [BindPort] does not change what [GetAllPorts]
    returns, panic included. *)
Theorem GetAllPorts_unaffected k (c : Call Capability) ctx :
  (∀ p, c ≠ CallBindPort p) →
  (GetAllPorts k (exec k c ctx).2).1 = (GetAllPorts k ctx).1.
Proof.
  intros Hc. rewrite !GetAllPorts_unfold. apply GetAllPorts_loop_keys.
  rewrite !KVStorePrefixIterator_keys, exec_KVStore.
  by apply keys_under_store_effect.
Qed.

End port_registry_more.

(** ** The order and the multiplicity of the ports [GetAllPorts] returns *)

Lemma KeyPort_le p q : String.le p q → String.le (types.KeyPort p) (types.KeyPort q).
Proof. intros Hle. exact Hle. Qed.

Lemma fmap_fixed {A : Type} (f : A → A) (l : list A) :
  (∀ x, x ∈ l → f x = x) → f <$> l = l.
Proof.
  induction l as [|x l IH]; intros Hf; [done|].
  rewrite fmap_cons, Hf by left. f_equal. apply IH. intros y Hy. apply Hf. by right.
Qed.


Lemma store_effect_keeps_port_records {Capability : Type} (c : Call Capability) store key :
  String.prefix types.PortKeyPrefix key = true →
  is_Some (store !! key) → is_Some (store_effect c store !! key).
Proof.
  intros Hprefix Hkey.
  destruct c; try (rewrite store_effect_keeps_port_keys; [done|done|done]).
  simpl. apply lookup_insert_is_Some'. by right.
Qed.

Lemma store_effect_ports_marked {Capability : Type} (c : Call Capability) store :
  ports_marked store → ports_marked (store_effect c store).
Proof.
  intros Hmarked p value. destruct c; simpl; try apply Hmarked.
  - destruct (decide (portID = p)) as [->|Hne].
    + rewrite lookup_insert_eq. congruence.
    + rewrite lookup_insert_ne; [apply Hmarked|]. by intros ?%KeyPort_inj.
  - rewrite lookup_insert_ne; [apply Hmarked|]. apply not_eq_sym, KeyPort_KeyActiveChannel.
  - rewrite lookup_delete_ne; [apply Hmarked|]. apply not_eq_sym, KeyPort_KeyActiveChannel.
  - rewrite lookup_insert_ne; [apply Hmarked|]. apply not_eq_sym, KeyPort_KeyOwnerAccount.
Qed.

Section port_registry_order.

Context {World Capability RegisteredError : Type}.
Context `{!types.Package RegisteredError}.

Implicit Types (k : Keeper World Capability RegisteredError).
Implicit Types (ctx : sdk.Context World).

Lemma run_keeps_port_records k (calls : list (Call Capability)) ctx key :
  String.prefix types.PortKeyPrefix key = true →
  is_Some (sdk.KVStore ctx !! key) →
  is_Some (sdk.KVStore (run k calls ctx).2 !! key).
Proof.
  intros Hprefix. revert ctx.
  induction calls as [|c calls IH]; intros ctx Hkey; [done|].
  rewrite run_cons. apply IH. rewrite exec_KVStore.
  by apply store_effect_keeps_port_records.
Qed.

(** X4: starting with no port bound, after binding any identifiers without
    a slash, in any order and any number of times, [GetAllPorts] returns
    the bound identifiers in ascending byte order, each once. *)
Theorem GetAllPorts_sorted_without_duplicates k (portIDs : list string) ctx :
  no_ports (sdk.KVStore ctx) →
  (∀ p, p ∈ portIDs → has_slash p = false) →
  ∃ ports,
    (GetAllPorts k (run k (CallBindPort <$> portIDs) ctx).2).1 = Some ports
    ∧ Sorted String.le ports ∧ NoDup ports ∧ ∀ p, p ∈ ports ↔ p ∈ portIDs.
Proof.
  intros Hnone Hslash.
  set (ports := merge_sort String.le (remove_dups portIDs)).
  assert (∀ p, p ∈ ports ↔ p ∈ portIDs) as Hports.
  { intros p. unfold ports. by rewrite merge_sort_Permutation, elem_of_remove_dups. }
  assert (NoDup ports) as Hnodup.
  { unfold ports. rewrite merge_sort_Permutation. apply NoDup_remove_dups. }
  assert (Sorted String.le ports) as Hsorted by apply (Sorted_merge_sort String.le).
  exists ports. split; [|done].
  rewrite GetAllPorts_eq by by apply run_ports_wf, no_ports_wf.
  rewrite (keys_under_unique _ _ (types.KeyPort <$> ports)).
  - simpl. f_equal. rewrite <- list_fmap_compose. apply fmap_fixed.
    intros p Hp. simpl. rewrite between_slashes_KeyPort.
    apply before_slash_no_slash, Hslash. by apply Hports.
  - by apply (Sorted_fmap _ String.le String.le), Hsorted.
  - apply NoDup_fmap_2_strong; [|done]. intros p q _ _. apply KeyPort_inj.
  - intros key. split.
    + intros (p & -> & Hp)%list_elem_of_fmap_1. split; [apply KeyPort_prefix|].
      apply BindPorts_lookup; [apply KeyPort_prefix|].
      right. exists p. by rewrite <- Hports.
    + intros [Hprefix Hkey]. apply BindPorts_lookup in Hkey; [|done].
      destruct Hkey as [Hkey|(p & Hp & ->)].
      * rewrite Hnone in Hkey by done. by destruct Hkey.
      * apply list_elem_of_fmap_2. by rewrite Hports.
Qed.


(** X6: no call of the keeper removes a port record: the ports that
    [GetAllPorts] returns are still returned after any run of calls. *)
Theorem GetAllPorts_grows k (calls : list (Call Capability)) ctx :
  ports_wf (sdk.KVStore ctx) →
  ∃ before after,
    (GetAllPorts k ctx).1 = Some before
    ∧ (GetAllPorts k (run k calls ctx).2).1 = Some after
    ∧ ∀ p, p ∈ before → p ∈ after.
Proof.
  intros Hwf. eexists _, _. split; [by rewrite GetAllPorts_eq|].
  split; [by rewrite GetAllPorts_eq by by apply run_ports_wf|].
  intros p (key & -> & [Hprefix Hkey]%elem_of_keys_under)%list_elem_of_fmap_1.
  apply list_elem_of_fmap_2, elem_of_keys_under.
  split; [done|by apply run_keeps_port_records].
Qed.

(** X7: when every port record holds the sentinel byte, as in a store
    without any, so it does after any run of keeper calls. *)
Theorem port_records_hold_sentinel k (calls : list (Call Capability)) ctx :
  ports_marked (sdk.KVStore ctx) →
  ports_marked (sdk.KVStore (run k calls ctx).2).
Proof.
  revert ctx. induction calls as [|c calls IH]; intros ctx Hmarked; [done|].
  rewrite run_cons. apply IH. rewrite exec_KVStore. by apply store_effect_ports_marked.
Qed.

End port_registry_order.

(** ** Writes to the store: composition *)

Lemma store_effect_lookup {Capability : Type} (c : Call Capability) store key :
  store_effect c store !! key =
    if decide (written_key c = Some key) then written_value c else store !! key.
Proof.
  case_decide as Hkey; [|by apply store_effect_frame].
  destruct c; simplify_eq/=; by rewrite ?lookup_insert_eq, ?lookup_delete_eq.
Qed.

Lemma written_key_active {Capability : Type} (c : Call Capability) p :
  (∀ channelID, c ≠ CallSetActiveChannelID p channelID) →
  c ≠ CallDeleteActiveChannelID p →
  written_key c ≠ Some (types.KeyActiveChannel p).
Proof.
  intros Hset Hdelete. destruct c; simpl; try done.
  - intros Heq. assert (portID = p) as -> by (apply KeyActiveChannel_inj; congruence).
    by eapply Hset.
  - intros Heq. assert (portID = p) as -> by (apply KeyActiveChannel_inj; congruence).
    done.
Qed.

Section tracker_more.

Context {World Capability RegisteredError : Type}.
Context `{!types.Package RegisteredError}.

Implicit Types (k : Keeper World Capability RegisteredError).
Implicit Types (ctx : sdk.Context World).

Lemma BindPort_eq k p ctx :
  BindPort k p ctx =
    ((types.BindPort (portKeeper k) p (sdk.world ctx)).1,
     sdk.mkContext (<[types.KeyPort p := String "001" EmptyString]> (sdk.KVStore ctx))
       (types.BindPort (portKeeper k) p (sdk.world ctx)).2).
Proof.
  unfold BindPort, mbind, M_bind, bind, store_Set, call. simpl.
  by destruct (types.BindPort (portKeeper k) p (sdk.world ctx)).
Qed.

Lemma Context_eta ctx : sdk.mkContext (sdk.KVStore ctx) (sdk.world ctx) = ctx.
Proof. by destruct ctx. Qed.


(** X9: on a port with no active channel, [DeleteActiveChannelID] changes
    nothing. *)
Theorem DeleteActiveChannelID_inactive_port k p ctx :
  (IsActiveChannel k p ctx).1 = false →
  (DeleteActiveChannelID k p ctx).2 = ctx.
Proof.
  rewrite IsActiveChannel_eq, DeleteActiveChannelID_eq. simpl.
  intros Hinactive%bool_decide_eq_false.
  rewrite delete_id; [apply Context_eta|].
  by apply eq_None_not_Some.
Qed.

(** X10: on a port with no active channel, [SetActiveChannelID] followed by
    [DeleteActiveChannelID] brings the context back to what it was. *)
Theorem SetActiveChannelID_then_Delete k p c ctx :
  (IsActiveChannel k p ctx).1 = false →
  (DeleteActiveChannelID k p (SetActiveChannelID k p c ctx).2).2 = ctx.
Proof.
  rewrite IsActiveChannel_eq, DeleteActiveChannelID_eq, SetActiveChannelID_eq. simpl.
  intros Hinactive%bool_decide_eq_false.
  rewrite delete_insert_id; [apply Context_eta|].
  by apply eq_None_not_Some.
Qed.

(** X11: in any run of keeper calls, the active channel of a port is
    decided by the last [SetActiveChannelID] or [DeleteActiveChannelID] for
    that port: after a last [SetActiveChannelID(p, c)] the port is active
    with channel [c], after a last [DeleteActiveChannelID(p)] it is not
    active. *)
Theorem active_channel_last_write k p c (before after : list (Call Capability)) ctx :
  (∀ channelID, CallSetActiveChannelID p channelID ∉ after) →
  CallDeleteActiveChannelID p ∉ after →
  let set := (run k (before ++ CallSetActiveChannelID p c :: after) ctx).2 in
  let deleted := (run k (before ++ CallDeleteActiveChannelID p :: after) ctx).2 in
  (GetActiveChannelID k p set).1 = (c, true)
  ∧ (IsActiveChannel k p set).1 = true
  ∧ (GetActiveChannelID k p deleted).1 = (EmptyString, false)
  ∧ (IsActiveChannel k p deleted).1 = false.
Proof.
  intros Hset Hdelete set deleted. subst set deleted.
  assert (∀ call, call ∈ after →
            written_key call ≠ Some (types.KeyActiveChannel p)) as Hafter.
  { intros call Hcall. apply written_key_active.
    - intros channelID ->. by eapply Hset.
    - by intros ->. }
  rewrite !GetActiveChannelID_eq, !IsActiveChannel_eq. cbn [fst].
  rewrite !run_app, !run_cons, !run_frame by done.
  rewrite !exec_KVStore. simpl.
  by rewrite lookup_insert_eq, lookup_delete_eq.
Qed.

(** X12: two calls that write to different keys can be made in either
    order: the store is the same afterwards. *)
Theorem writes_commute k (c1 c2 : Call Capability) ctx :
  written_key c1 ≠ written_key c2 →
  sdk.KVStore (exec k c2 (exec k c1 ctx).2).2 =
  sdk.KVStore (exec k c1 (exec k c2 ctx).2).2.
Proof.
  intros Hkeys. rewrite !exec_KVStore. apply map_eq. intros key.
  rewrite !store_effect_lookup. repeat case_decide; congruence.
Qed.

(** X13: a call that writes to no key leaves the store as it is, and unless
    it is [ClaimCapability] it leaves the whole context as it is. *)
Theorem reads_change_nothing k (c : Call Capability) ctx :
  written_key c = None →
  sdk.KVStore (exec k c ctx).2 = sdk.KVStore ctx
  ∧ ((∀ cap name, c ≠ CallClaimCapability cap name) → (exec k c ctx).2 = ctx).
Proof.
  intros Hread. split.
  - rewrite exec_KVStore. by destruct c.
  - intros Hclaim. destruct c; try discriminate Hread; simpl; rewrite ?discard_result.
    + reflexivity.
    + reflexivity.
    + reflexivity.
    + by destruct (Hclaim cap name).
    + by rewrite GetActiveChannelID_eq.
    + by rewrite IsActiveChannel_eq.
    + by rewrite GetInterchainAccountAddress_eq.
    + apply NegotiateAppVersion_ctx.
Qed.

(** X14: after [BindPort(p)], [IsBound(p)] is what the scoped keeper says
    of the path of [p] in the world the port keeper left: the port record
    that [BindPort] wrote is there but is not what [IsBound] reads. *)
Theorem IsBound_after_BindPort k p ctx :
  let bound := (BindPort k p ctx).2 in
  (IsBound k p bound).1 =
    bool_decide (is_Some (types.GetCapability (scopedKeeper k) (host.PortPath p)
                            (types.BindPort (portKeeper k) p (sdk.world ctx)).2))
  ∧ is_Some (sdk.KVStore bound !! types.KeyPort p)
  ∧ ∀ ctx', sdk.world ctx' = sdk.world bound → (IsBound k p ctx').1 = (IsBound k p bound).1.
Proof.
  intros bound. subst bound. rewrite BindPort_eq. simpl. split; [done|].
  split; [by rewrite lookup_insert_eq|].
  intros ctx' Hworld. unfold IsBound, mbind, M_bind, bind, query, ret. simpl.
  by rewrite Hworld.
Qed.

(** X15: [NewKeeper] panics exactly when the module account has no address;
    otherwise it returns the keeper of the collaborators it was given, and
    a negotiation of the supported version with it generates the address
    from the module account address, which is not nil. *)
Theorem NewKeeper_module_account pk ak (sk : types.ScopedKeeper World Capability _) :
  match NewKeeper pk ak sk with
  | None => types.GetModuleAddress ak types.ModuleName = None
  | Some k =>
      k = mkKeeper pk ak sk
      ∧ ∃ addr,
          types.GetModuleAddress ak types.ModuleName = Some addr
          ∧ ∀ order connectionID portID counterparty ctx,
              NegotiateAppVersion k order connectionID portID counterparty
                types.VersionPrefix ctx =
                ((types.NewAppVersion types.VersionPrefix
                    (types.AccAddress_String
                       (types.GenerateAddress (Some addr)
                          (channeltypes.PortId counterparty))),
                  None), ctx)
  end.
Proof.
  unfold NewKeeper.
  destruct (types.GetModuleAddress ak types.ModuleName) as [addr|] eqn:Haddr; [|done].
  split; [done|]. exists addr. split; [done|]. intros.
  unfold NegotiateAppVersion. rewrite bool_decide_eq_true_2 by done. simpl.
  by rewrite Haddr.
Qed.

End tracker_more.

(** ** [strings.Split] *)

Lemma join_pieces_cons c piece pieces sep :
  join_pieces (String c piece :: pieces) sep = String c (join_pieces (piece :: pieces) sep).
Proof. by destruct pieces. Qed.

(** X16: the pieces of [strings.Split(s, sep)], put together with [sep]
    between them, are [s]; there is one piece more than [s] has separators,
    and no piece has a separator in it. *)
Theorem Split_join s sep :
  join_pieces (strings.Split s sep) sep = s
  ∧ length (strings.Split s sep) = S (count_byte sep s)
  ∧ ∀ piece, piece ∈ strings.Split s sep → count_byte sep piece = 0.
Proof.
  induction s as [|c s (IHjoin & IHlength & IHpieces)]; simpl.
  - split; [done|]. split; [done|]. by intros piece ->%list_elem_of_singleton.
  - destruct (decide (c = sep)) as [->|Hc].
    + split; [|split].
      * destruct (strings.Split s sep) as [|piece pieces] eqn:Hsplit; [done|].
        change (String sep (join_pieces (piece :: pieces) sep) = String sep s).
        by rewrite IHjoin.
      * simpl. by rewrite IHlength.
      * intros piece [->|Hpiece]%elem_of_cons; [done|by apply IHpieces].
    + destruct (strings.Split s sep) as [|piece pieces] eqn:Hsplit; [done|].
      split; [|split].
      * by rewrite join_pieces_cons, IHjoin.
      * done.
      * intros piece' [->|Hpiece]%elem_of_cons.
        -- simpl. rewrite decide_False by done. apply IHpieces. left.
        -- apply IHpieces. by right.
Qed.

(** ** What the keeper never does *)

Lemma string_app_eq_l (a s : string) : a +:+ s = a → s = EmptyString.
Proof.
  induction a as [|c a IH]; [done|].
  change (String c (a +:+ s) = String c a → s = EmptyString). intros [= Heq]. by apply IH.
Qed.

Lemma store_effect_keeper_keys {Capability : Type} (c : Call Capability) store :
  keeper_keys store → keeper_keys (store_effect c store).
Proof.
  intros Hkeys key. destruct c; simpl; try apply Hkeys.
  - rewrite lookup_insert_is_Some. intros [<-|[_ Hkey]]; [|by apply Hkeys].
    exists portID. by left.
  - rewrite lookup_insert_is_Some. intros [<-|[_ Hkey]]; [|by apply Hkeys].
    exists portID. right. by left.
  - rewrite lookup_delete_is_Some. intros [_ Hkey]. by apply Hkeys.
  - rewrite lookup_insert_is_Some. intros [<-|[_ Hkey]]; [|by apply Hkeys].
    exists portID. right. by right.
Qed.

Lemma keys_under_no_ports store :
  no_ports store → keys_under types.PortKeyPrefix store = [].
Proof.
  intros Hnone. apply keys_under_unique; [constructor|constructor|].
  intros key. split; [by intros ?%elem_of_nil|].
  intros [Hprefix Hkey]. rewrite Hnone in Hkey by done. by destruct Hkey.
Qed.

Section never.

Context {World Capability RegisteredError : Type}.
Context `{!types.Package RegisteredError}.

Implicit Types (k : Keeper World Capability RegisteredError).
Implicit Types (ctx : sdk.Context World).

(** X17: the address registry does not ask for an address to be new: two
    different ports can be given the same address, and each keeps it. *)
Theorem SetInterchainAccountAddress_shared_address k p q address ctx :
  p ≠ q →
  let ctx' := (SetInterchainAccountAddress k q address
                 (SetInterchainAccountAddress k p address ctx).2).2 in
  (GetInterchainAccountAddress k p ctx').1 = (address, true)
  ∧ (GetInterchainAccountAddress k q ctx').1 = (address, true).
Proof.
  intros Hne ctx'. subst ctx'.
  rewrite !GetInterchainAccountAddress_eq, !SetInterchainAccountAddress_eq. simpl.
  rewrite lookup_insert_eq, lookup_insert_ne, lookup_insert_eq; [done|].
  intros Heq%KeyOwnerAccount_inj. by apply Hne.
Qed.

(** X18: the supported version is compared whole: a proposed version that
    only starts with the version prefix and goes on is refused with
    [ErrInvalidVersion]. *)
Theorem NegotiateAppVersion_longer_version
    k order connectionID portID counterparty suffix ctx :
  suffix ≠ EmptyString →
  ∃ err,
    NegotiateAppVersion k order connectionID portID counterparty
      (types.VersionPrefix +:+ suffix) ctx = ((EmptyString, Some err), ctx)
    ∧ sdkerrors.parent_of err = types.ErrInvalidVersion.
Proof.
  intros Hsuffix. unfold NegotiateAppVersion.
  rewrite bool_decide_eq_false_2 by (by intros ?%string_app_eq_l).
  by eexists.
Qed.

(** X19: the keeper writes under its three kinds of keys only: when every
    key of the store is a port key, an active-channel key or an address
    key, as in the empty store, so it is after any run of keeper calls. *)
Theorem keeper_writes_its_keys_only k (calls : list (Call Capability)) ctx :
  keeper_keys (sdk.KVStore ctx) →
  keeper_keys (sdk.KVStore (run k calls ctx).2).
Proof.
  revert ctx. induction calls as [|c calls IH]; intros ctx Hkeys; [done|].
  rewrite run_cons. apply IH. rewrite exec_KVStore. by apply store_effect_keeper_keys.
Qed.

(** X20: only [BindPort] registers a port: starting with no port bound,
    after any run of calls none of which is a [BindPort], [GetAllPorts]
    returns no port, whatever active channels and addresses were set. *)
Theorem GetAllPorts_without_BindPort k (calls : list (Call Capability)) ctx :
  no_ports (sdk.KVStore ctx) →
  (∀ p, CallBindPort p ∉ calls) →
  (GetAllPorts k (run k calls ctx).2).1 = Some [].
Proof.
  intros Hnone. revert ctx Hnone.
  induction calls as [|c calls IH]; intros ctx Hnone Hcalls.
  - rewrite GetAllPorts_eq by by apply no_ports_wf. simpl.
    by rewrite keys_under_no_ports.
  - rewrite run_cons. apply IH.
    + intros key Hprefix. rewrite exec_KVStore, store_effect_keeps_port_keys; [by apply Hnone| |done].
      intros p ->. apply (Hcalls p). left.
    + intros p Hp. apply (Hcalls p). by right.
Qed.

End never.

(** ** The further properties at the concrete keeper *)

Lemma no_ports_empty : no_ports ∅.
Proof. intros key _. apply lookup_empty. Qed.

Lemma ports_marked_empty : ports_marked ∅.
Proof. intros portID value Hkey. rewrite lookup_empty in Hkey. discriminate Hkey. Qed.

Lemma keeper_keys_empty : keeper_keys ∅.
Proof. intros key [value Hkey]. rewrite lookup_empty in Hkey. discriminate Hkey. Qed.

Lemma GetAllPorts_never_panics_witness :
  ports_wf (sdk.KVStore demo.ctx0)
  ∧ is_Some (GetAllPorts demo.keeper
               (run demo.keeper
                  [CallBindPort "transfer"; CallSetActiveChannelID "transfer" "channel-0"]
                  demo.ctx0).2).1.
Proof.
  assert (ports_wf (sdk.KVStore demo.ctx0)) as Hwf by apply no_ports_wf, no_ports_empty.
  split; [exact Hwf|].
  exact (GetAllPorts_never_panics demo.keeper _ demo.ctx0 Hwf).
Defined.

Lemma GetAllPorts_unaffected_witness :
  (GetAllPorts demo.keeper
     (exec demo.keeper (CallSetActiveChannelID "icacontroller-1" "channel-0")
        (BindPort demo.keeper "icacontroller-1" demo.ctx0).2).2).1 =
  (GetAllPorts demo.keeper (BindPort demo.keeper "icacontroller-1" demo.ctx0).2).1.
Proof.
  apply (GetAllPorts_unaffected demo.keeper
           (CallSetActiveChannelID "icacontroller-1" "channel-0")).
  intros p Hp. discriminate Hp.
Defined.

Lemma GetAllPorts_sorted_without_duplicates_witness :
  ∃ ports,
    (GetAllPorts demo.keeper
       (run demo.keeper (CallBindPort <$> ["transfer"; "icacontroller-1"; "transfer"])
          demo.ctx0).2).1 = Some ports
    ∧ Sorted String.le ports ∧ NoDup ports
    ∧ ∀ p, p ∈ ports ↔ p ∈ ["transfer"; "icacontroller-1"; "transfer"].
Proof.
  apply (GetAllPorts_sorted_without_duplicates demo.keeper _ demo.ctx0).
  - apply no_ports_empty.
  - intros p Hp.
    repeat (apply elem_of_cons in Hp as [->|Hp]; [reflexivity|]).
    apply elem_of_nil in Hp. destruct Hp.
Defined.


Lemma GetAllPorts_grows_witness :
  ∃ before after,
    (GetAllPorts demo.keeper (BindPort demo.keeper "a" demo.ctx0).2).1 = Some before
    ∧ (GetAllPorts demo.keeper
         (run demo.keeper [CallDeleteActiveChannelID "a"; CallBindPort "b"]
            (BindPort demo.keeper "a" demo.ctx0).2).2).1 = Some after
    ∧ ∀ p, p ∈ before → p ∈ after.
Proof.
  apply (GetAllPorts_grows demo.keeper _ (BindPort demo.keeper "a" demo.ctx0).2).
  rewrite BindPort_KVStore.
  apply (store_effect_ports_wf (CallBindPort (Capability := nat) "a")), no_ports_wf, no_ports_empty.
Defined.

Lemma port_records_hold_sentinel_witness :
  ports_marked
    (sdk.KVStore
       (run demo.keeper [CallBindPort "a"; CallSetActiveChannelID "a" "channel-0"]
          demo.ctx0).2).
Proof.
  apply (port_records_hold_sentinel demo.keeper _ demo.ctx0), ports_marked_empty.
Defined.

Lemma DeleteActiveChannelID_inactive_port_witness :
  (DeleteActiveChannelID demo.keeper "icacontroller-1" demo.ctx0).2 = demo.ctx0.
Proof.
  apply (DeleteActiveChannelID_inactive_port demo.keeper "icacontroller-1" demo.ctx0).
  reflexivity.
Defined.

Lemma SetActiveChannelID_then_Delete_witness :
  (DeleteActiveChannelID demo.keeper "icacontroller-1"
     (SetActiveChannelID demo.keeper "icacontroller-1" "channel-0" demo.ctx0).2).2 =
  demo.ctx0.
Proof.
  apply (SetActiveChannelID_then_Delete demo.keeper "icacontroller-1" "channel-0" demo.ctx0).
  reflexivity.
Defined.

Lemma active_channel_last_write_witness :
  (GetActiveChannelID demo.keeper "p"
     (run demo.keeper
        ([CallSetActiveChannelID "p" "channel-0"] ++
         CallSetActiveChannelID "p" "channel-1" ::
         [CallBindPort "p"; CallSetActiveChannelID "q" "channel-9"])
        demo.ctx0).2).1 = ("channel-1", true).
Proof.
  refine (proj1 (active_channel_last_write demo.keeper "p" "channel-1"
                   [CallSetActiveChannelID "p" "channel-0"]
                   [CallBindPort "p"; CallSetActiveChannelID "q" "channel-9"]
                   demo.ctx0 _ _)).
  - intros channelID Hin.
    repeat (apply elem_of_cons in Hin as [Hin|Hin]; [discriminate Hin|]).
    apply elem_of_nil in Hin. destruct Hin.
  - intros Hin.
    repeat (apply elem_of_cons in Hin as [Hin|Hin]; [discriminate Hin|]).
    apply elem_of_nil in Hin. destruct Hin.
Defined.

Lemma writes_commute_witness :
  sdk.KVStore
    (exec demo.keeper (CallSetInterchainAccountAddress "p" "cosmos1abc")
       (exec demo.keeper (CallSetActiveChannelID "p" "channel-0") demo.ctx0).2).2 =
  sdk.KVStore
    (exec demo.keeper (CallSetActiveChannelID "p" "channel-0")
       (exec demo.keeper (CallSetInterchainAccountAddress "p" "cosmos1abc") demo.ctx0).2).2.
Proof.
  apply (writes_commute demo.keeper (CallSetActiveChannelID "p" "channel-0")
           (CallSetInterchainAccountAddress "p" "cosmos1abc") demo.ctx0).
  intros Hkeys. discriminate Hkeys.
Defined.

Lemma reads_change_nothing_witness :
  (exec demo.keeper (CallGetActiveChannelID "p")
     (SetActiveChannelID demo.keeper "p" "channel-0" demo.ctx0).2).2 =
  (SetActiveChannelID demo.keeper "p" "channel-0" demo.ctx0).2.
Proof.
  refine (proj2 (reads_change_nothing demo.keeper (CallGetActiveChannelID "p")
                   (SetActiveChannelID demo.keeper "p" "channel-0" demo.ctx0).2 eq_refl) _).
  intros cap name Hclaim. discriminate Hclaim.
Defined.

Lemma SetInterchainAccountAddress_shared_address_witness :
  (GetInterchainAccountAddress demo.keeper "p"
     (SetInterchainAccountAddress demo.keeper "q" "cosmos1abc"
        (SetInterchainAccountAddress demo.keeper "p" "cosmos1abc" demo.ctx0).2).2).1 =
    ("cosmos1abc", true)
  ∧ (GetInterchainAccountAddress demo.keeper "q"
       (SetInterchainAccountAddress demo.keeper "q" "cosmos1abc"
          (SetInterchainAccountAddress demo.keeper "p" "cosmos1abc" demo.ctx0).2).2).1 =
    ("cosmos1abc", true).
Proof.
  apply (SetInterchainAccountAddress_shared_address demo.keeper "p" "q" "cosmos1abc"
           demo.ctx0).
  intros Heq. discriminate Heq.
Defined.

Lemma NegotiateAppVersion_longer_version_witness :
  ∃ err,
    NegotiateAppVersion demo.keeper channeltypes.ORDERED "connection-0" "icacontroller-1"
      (channeltypes.mkCounterparty "icahost" "channel-0")
      (types.VersionPrefix +:+ "/cosmos1abc") demo.ctx0 = ((EmptyString, Some err), demo.ctx0)
    ∧ sdkerrors.parent_of err = types.ErrInvalidVersion.
Proof.
  apply (NegotiateAppVersion_longer_version demo.keeper).
  intros Hsuffix. discriminate Hsuffix.
Defined.

Lemma keeper_writes_its_keys_only_witness :
  keeper_keys
    (sdk.KVStore
       (run demo.keeper
          [CallBindPort "p"; CallSetActiveChannelID "p" "channel-0";
           CallSetInterchainAccountAddress "p" "cosmos1abc"; CallDeleteActiveChannelID "p"]
          demo.ctx0).2).
Proof.
  apply (keeper_writes_its_keys_only demo.keeper _ demo.ctx0), keeper_keys_empty.
Defined.

Lemma GetAllPorts_without_BindPort_witness :
  (GetAllPorts demo.keeper
     (run demo.keeper
        [CallSetActiveChannelID "p" "channel-0";
         CallSetInterchainAccountAddress "p" "cosmos1abc"]
        demo.ctx0).2).1 = Some [].
Proof.
  apply (GetAllPorts_without_BindPort demo.keeper _ demo.ctx0).
  - apply no_ports_empty.
  - intros p Hin.
    repeat (apply elem_of_cons in Hin as [Hin|Hin]; [discriminate Hin|]).
    apply elem_of_nil in Hin. destruct Hin.
Defined.
